(** * listener.py: a UDP echo listener

    A shallow embedding of [listener.py].  The module-level code opens a
    UDP socket, binds it and then loops forever: receive a datagram, log
    it (with a hex dump made by [bytes_dump]), sleep one second and send
    the datagram back to where it came from.

    The file has three layers:
    - the text that Python's formatting builtins produce ([repr] of
      [bytes], [str], tuples and lists, [str] of an [int], the format
      spec [02X]);
    - a small state-and-exception monad [M] over the interpreter state:
      the outside world (what each call on the socket, each [print] and
      each [sleep] will meet), the heap of mutable lists and the trace
      of calls made so far; exceptions come out of these calls, a
      signal being taken at the call it interrupts;
    - the program itself, and the theorems about its traces. *)

From Stdlib Require Import ZArith String Ascii List Lia.
From Stdlib.Strings Require Import Byte.
From Stdlib Require Import Decimal Hexadecimal DecimalString.
From stdpp Require Import base list.

Open Scope string_scope.
Open Scope Z_scope.

(** ** Python text *)

Module PyText.

(** A [bytes] object is an immutable sequence of octets; a [str] whose
    code points are below 256 is a [string]. *)
Definition bytes := list byte.

Definition len {A} (l : list A) : Z := Z.of_nat (length l).

(** Iterating over [bytes] yields [int]s in [range(256)]; [int(byte)]
    is the identity on them. *)
Definition int_of_byte (b : byte) : Z := Z.of_N (Byte.to_N b).

Definition chr_of_byte (b : byte) : ascii := ascii_of_byte b.

Definition squote : ascii := "'"%char.
Definition dquote : ascii := "034"%char.
Definition backslash : ascii := "\"%char.
Definition tab : ascii := "009"%char.
Definition newline : ascii := "010"%char.
Definition carriage_return : ascii := "013"%char.

Definition nl : string := String newline EmptyString.

Definition chr (c : ascii) : string := String c EmptyString.

(** *** Integers *)

(** [str(n)] for an [int]. *)
Definition str_int (n : Z) : string :=
  DecimalString.NilZero.string_of_int (Z.to_int n).

(** The digits of format type [X]. *)
Fixpoint upper_hex (d : Hexadecimal.uint) : string :=
  match d with
  | Hexadecimal.Nil => ""
  | Hexadecimal.D0 d => String "0" (upper_hex d)
  | Hexadecimal.D1 d => String "1" (upper_hex d)
  | Hexadecimal.D2 d => String "2" (upper_hex d)
  | Hexadecimal.D3 d => String "3" (upper_hex d)
  | Hexadecimal.D4 d => String "4" (upper_hex d)
  | Hexadecimal.D5 d => String "5" (upper_hex d)
  | Hexadecimal.D6 d => String "6" (upper_hex d)
  | Hexadecimal.D7 d => String "7" (upper_hex d)
  | Hexadecimal.D8 d => String "8" (upper_hex d)
  | Hexadecimal.D9 d => String "9" (upper_hex d)
  | Hexadecimal.Da d => String "A" (upper_hex d)
  | Hexadecimal.Db d => String "B" (upper_hex d)
  | Hexadecimal.Dc d => String "C" (upper_hex d)
  | Hexadecimal.Dd d => String "D" (upper_hex d)
  | Hexadecimal.De d => String "E" (upper_hex d)
  | Hexadecimal.Df d => String "F" (upper_hex d)
  end.

Fixpoint zeros (n : nat) : string :=
  match n with
  | O => ""
  | S n => String "0" (zeros n)
  end.

(** ["{:02X}".format(n)]: upper-case hexadecimal, padded with zeros
    after the sign up to a total width of two; wider numbers are not
    cut. *)
Definition format_02X (n : Z) : string :=
  let digits := upper_hex (N.to_hex_uint (Z.abs_N n)) in
  let sign := if n <? 0 then "-" else "" in
  sign ++ zeros (2 - String.length sign - String.length digits) ++ digits.

(** *** [repr] *)

Definition lower_hex_digit (n : N) : ascii :=
  match n with
  | 0 => "0" | 1 => "1" | 2 => "2" | 3 => "3" | 4 => "4" | 5 => "5"
  | 6 => "6" | 7 => "7" | 8 => "8" | 9 => "9" | 10 => "a" | 11 => "b"
  | 12 => "c" | 13 => "d" | 14 => "e" | _ => "f"
  end%N%char.

(** The escape [\xhh]. *)
Definition escape_x (c : ascii) : string :=
  let n := N_of_ascii c in
  String backslash
    (String "x"
       (String (lower_hex_digit (n / 16))
          (String (lower_hex_digit (n mod 16)) EmptyString))).

Fixpoint contains (q : ascii) (s : list ascii) : bool :=
  match s with
  | [] => false
  | c :: s => Ascii.eqb c q || contains q s
  end.

(** Single quotes, unless the text has a single quote and no double
    quote. *)
Definition repr_quote (s : list ascii) : ascii :=
  if contains squote s && negb (contains dquote s) then dquote else squote.

(** One octet of [repr(bytes)]. *)
Definition repr_byte (quote : ascii) (c : ascii) : string :=
  if Ascii.eqb c quote || Ascii.eqb c backslash then String backslash (chr c)
  else if Ascii.eqb c tab then String backslash "t"
  else if Ascii.eqb c newline then String backslash "n"
  else if Ascii.eqb c carriage_return then String backslash "r"
  else if (N_of_ascii c <? 32)%N || (127 <=? N_of_ascii c)%N then escape_x c
  else chr c.

(** [str.isprintable] on the code points below 256. *)
Definition isprintable (c : ascii) : bool :=
  let n := N_of_ascii c in
  negb ((n <? 32) || ((127 <=? n) && (n <=? 160)) || (n =? 173))%N.

(** One code point of [repr(str)]. *)
Definition repr_char (quote : ascii) (c : ascii) : string :=
  if Ascii.eqb c quote || Ascii.eqb c backslash then String backslash (chr c)
  else if Ascii.eqb c tab then String backslash "t"
  else if Ascii.eqb c newline then String backslash "n"
  else if Ascii.eqb c carriage_return then String backslash "r"
  else if isprintable c then chr c
  else escape_x c.

Definition quoted (each : ascii -> ascii -> string) (s : list ascii) : string :=
  let q := repr_quote s in
  chr q ++ String.concat "" (List.map (each q) s) ++ chr q.

Definition repr_bytes (data : bytes) : string :=
  "b" ++ quoted repr_byte (List.map chr_of_byte data).

Definition repr_str (s : string) : string :=
  quoted repr_char (list_ascii_of_string s).

(** [repr] of a list of [str]. *)
Definition repr_list (l : list string) : string :=
  "[" ++ String.concat ", " (List.map repr_str l) ++ "]".

End PyText.

Export PyText.

(** ** Python exceptions *)

Module PyExc.

(** The built-in exception classes that matter to a socket program,
    with the base class of each as in the Python class hierarchy. *)
Inductive exc_class :=
| BaseException
| Exception
| KeyboardInterrupt
| SystemExit
| GeneratorExit
| ArithmeticError
| OverflowError
| MemoryError
| TypeError
| ValueError
| OSError
| ConnectionError
| ConnectionRefusedError
| PermissionError
| TimeoutError.

#[global] Instance exc_class_eq_dec : EqDecision exc_class.
Proof. solve_decision. Defined.

Definition base (c : exc_class) : option exc_class :=
  match c with
  | BaseException => None
  | Exception | KeyboardInterrupt | SystemExit | GeneratorExit =>
      Some BaseException
  | ArithmeticError | MemoryError | TypeError | ValueError | OSError =>
      Some Exception
  | OverflowError => Some ArithmeticError
  | ConnectionError | PermissionError | TimeoutError => Some OSError
  | ConnectionRefusedError => Some ConnectionError
  end.

Fixpoint mro_from (depth : nat) (c : exc_class) : list exc_class :=
  c :: match depth, base c with
       | S depth, Some b => mro_from depth b
       | _, _ => []
       end.

(** The classes [c] derives from, itself first.  No chain of bases
    above is longer than five classes. *)
Definition mro (c : exc_class) : list exc_class := mro_from 4 c.

Definition issubclass (c d : exc_class) : bool :=
  existsb (fun b => bool_decide (b = d)) (mro c).

(** An exception object: its class and what [str(e)] gives. *)
Record exc := { exc_type : exc_class; exc_str : string }.

Definition isinstance (e : exc) (c : exc_class) : bool :=
  issubclass (exc_type e) c.

End PyExc.

Export PyExc.

(** ** The interpreter state and its monad *)

Module Interp.

Inductive address_family := AF_INET | AF_INET6 | AF_UNIX.
Inductive socket_kind := SOCK_STREAM | SOCK_DGRAM.

(** An [AF_INET] address is the tuple [(host, port)]; a socket object
    is known by its descriptor. *)
Definition address := (string * Z)%type.
Definition socket := nat.

Definition repr_address (a : address) : string :=
  "(" ++ repr_str (fst a) ++ ", " ++ str_int (snd a) ++ ")".

(** How a call ended. *)
Inductive result (A : Type) :=
| Returned (a : A)
| Raised (e : exc).
Arguments Returned {A} a.
Arguments Raised {A} e.

(** What the world outside does: the datagram (or the error) that each
    successive [recvfrom] meets, the fate of each successive [sendto],
    and the exception, if any, that each successive [print] and each
    successive [sleep] raises (standard output refusing the write, a
    signal arriving during the sleep).  A [recvfrom] on an empty inbox
    waits for ever; a [sendto], a [print] or a [sleep] beyond the end
    of its list goes through. *)
Inductive arrival :=
| Datagram (payload : bytes) (sender : address)
| RecvError (e : exc).

Inductive fate :=
| Delivered
| SendError (e : exc).

Record world := {
  w_socket : result socket;
  w_bind : result unit;
  w_inbox : list arrival;
  w_sends : list fate;
  w_prints : list (option exc);
  w_sleeps : list (option exc)
}.

(** The calls the program makes, each with how it ended.  The result
    of [Recvfrom] is [None] when the call never returns. *)
Inductive event :=
| Socket (family : address_family) (kind : socket_kind) (r : result socket)
| Bind (sock : socket) (addr : address) (r : result unit)
| Recvfrom (sock : socket) (bufsize : Z) (r : option (result (bytes * address)))
| Print (text : string) (r : result unit)
| Sleep (secs : Z) (r : result unit)
| Sendto (sock : socket) (data : bytes) (addr : address) (r : result Z).

(** A reference to a mutable [list] of [str] is its index in the heap. *)
Definition ref := nat.

Record state := {
  st_world : world;
  st_heap : list (list string);
  st_trace : list event
}.

Definition with_inbox (inbox : list arrival) (s : state) : state :=
  {| st_world := {| w_socket := w_socket (st_world s);
                    w_bind := w_bind (st_world s);
                    w_inbox := inbox;
                    w_sends := w_sends (st_world s);
                    w_prints := w_prints (st_world s);
                    w_sleeps := w_sleeps (st_world s) |};
     st_heap := st_heap s;
     st_trace := st_trace s |}.

Definition with_sends (sends : list fate) (s : state) : state :=
  {| st_world := {| w_socket := w_socket (st_world s);
                    w_bind := w_bind (st_world s);
                    w_inbox := w_inbox (st_world s);
                    w_sends := sends;
                    w_prints := w_prints (st_world s);
                    w_sleeps := w_sleeps (st_world s) |};
     st_heap := st_heap s;
     st_trace := st_trace s |}.

Definition with_prints (prints : list (option exc)) (s : state) : state :=
  {| st_world := {| w_socket := w_socket (st_world s);
                    w_bind := w_bind (st_world s);
                    w_inbox := w_inbox (st_world s);
                    w_sends := w_sends (st_world s);
                    w_prints := prints;
                    w_sleeps := w_sleeps (st_world s) |};
     st_heap := st_heap s;
     st_trace := st_trace s |}.

Definition with_sleeps (sleeps : list (option exc)) (s : state) : state :=
  {| st_world := {| w_socket := w_socket (st_world s);
                    w_bind := w_bind (st_world s);
                    w_inbox := w_inbox (st_world s);
                    w_sends := w_sends (st_world s);
                    w_prints := w_prints (st_world s);
                    w_sleeps := sleeps |};
     st_heap := st_heap s;
     st_trace := st_trace s |}.

Definition with_heap (heap : list (list string)) (s : state) : state :=
  {| st_world := st_world s; st_heap := heap; st_trace := st_trace s |}.

Definition log (ev : event) (s : state) : state :=
  {| st_world := st_world s;
     st_heap := st_heap s;
     st_trace := (st_trace s ++ [ev])%list |}.

(** How a piece of program ended: normally, by an exception nothing
    caught, stuck in a call that never returns, or cut short by the
    bound on the number of loop iterations. *)
Inductive outcome (A : Type) :=
| Normal (a : A)
| Uncaught (e : exc)
| Blocked
| OutOfFuel.
Arguments Normal {A} a.
Arguments Uncaught {A} e.
Arguments Blocked {A}.
Arguments OutOfFuel {A}.

Definition M (A : Type) : Type := state -> outcome A * state.

Definition ret {A} (a : A) : M A := fun s => (Normal a, s).

Definition mbind {A B} (m : M A) (k : A -> M B) : M B :=
  fun s =>
    match m s with
    | (Normal a, s') => k a s'
    | (Uncaught e, s') => (Uncaught e, s')
    | (Blocked, s') => (Blocked, s')
    | (OutOfFuel, s') => (OutOfFuel, s')
    end.

Declare Scope py_scope.
Delimit Scope py_scope with py.
Notation "'do' x <- m ; k" := (mbind m (fun x => k))
  (at level 10, x binder, m at level 100, k at level 200) : py_scope.
Notation "m ;; k" := (mbind m (fun _ => k))
  (at level 100, k at level 200, right associativity) : py_scope.
Open Scope py_scope.

(** [try: body / except cls as e: handler]. *)
Definition try_except {A} (body : M A) (cls : exc_class)
    (handler : exc -> M A) : M A :=
  fun s =>
    match body s with
    | (Uncaught e, s') =>
        if isinstance e cls then handler e s' else (Uncaught e, s')
    | r => r
    end.

(** [for x in xs: body]. *)
Fixpoint for_each {A} (xs : list A) (body : A -> M unit) : M unit :=
  match xs with
  | [] => ret tt
  | x :: xs => body x ;; for_each xs body
  end.

(** [while True: body], cut after [fuel] iterations. *)
Fixpoint while_true (fuel : nat) (body : M unit) : M unit :=
  match fuel with
  | O => fun s => (OutOfFuel, s)
  | S fuel => body ;; while_true fuel body
  end.

(** *** Lists on the heap *)

(** [[]]: a fresh empty list. *)
Definition new_list : M ref :=
  fun s => (Normal (length (st_heap s)), with_heap (st_heap s ++ [[]])%list s).

(** [l.append(x)]. *)
Definition list_append (l : ref) (x : string) : M unit :=
  fun s => (Normal tt, with_heap (alter (fun xs => (xs ++ [x])%list) l (st_heap s)) s).

(** [repr(l)], as an f-string field renders a list. *)
Definition list_repr (l : ref) : M string :=
  fun s => (Normal (repr_list (default [] (st_heap s !! l))), s).

(** *** Calls into the outside world *)

Definition socket_socket (family : address_family) (kind : socket_kind)
    : M socket :=
  fun s =>
    let r := w_socket (st_world s) in
    (match r with Returned fd => Normal fd | Raised e => Uncaught e end,
     log (Socket family kind r) s).

Definition sock_bind (sock : socket) (addr : address) : M unit :=
  fun s =>
    let r := w_bind (st_world s) in
    (match r with Returned u => Normal u | Raised e => Uncaught e end,
     log (Bind sock addr r) s).

Definition negative_buffersize : exc :=
  {| exc_type := ValueError;
     exc_str := "negative buffersize in recvfrom" |}.

(** A negative [bufsize] is refused before the socket is touched; a
    datagram longer than [bufsize] is cut to its first [bufsize]
    octets. *)
Definition sock_recvfrom (sock : socket) (bufsize : Z) : M (bytes * address) :=
  fun s =>
    if bufsize <? 0 then
      (Uncaught negative_buffersize,
       log (Recvfrom sock bufsize (Some (Raised negative_buffersize))) s)
    else
    match w_inbox (st_world s) with
    | [] => (Blocked, log (Recvfrom sock bufsize None) s)
    | Datagram payload sender :: inbox =>
        let got := (take (Z.to_nat bufsize) payload, sender) in
        (Normal got,
         log (Recvfrom sock bufsize (Some (Returned got))) (with_inbox inbox s))
    | RecvError e :: inbox =>
        (Uncaught e,
         log (Recvfrom sock bufsize (Some (Raised e))) (with_inbox inbox s))
    end.

Definition next_fate (sends : list fate) : fate :=
  match sends with
  | [] => Delivered
  | f :: _ => f
  end.

(** A datagram that goes through is sent whole: the call returns its
    length. *)
Definition sock_sendto (sock : socket) (data : bytes) (addr : address) : M Z :=
  fun s =>
    let sends := w_sends (st_world s) in
    match next_fate sends with
    | Delivered =>
        (Normal (len data),
         log (Sendto sock data addr (Returned (len data)))
           (with_sends (tail sends) s))
    | SendError e =>
        (Uncaught e,
         log (Sendto sock data addr (Raised e)) (with_sends (tail sends) s))
    end.

Definition next_mishap (mishaps : list (option exc)) : option exc :=
  match mishaps with
  | [] => None
  | m :: _ => m
  end.

(** [print] writes to standard output, and raises when the write is
    refused. *)
Definition print (text : string) : M unit :=
  fun s =>
    let prints := w_prints (st_world s) in
    match next_mishap prints with
    | None =>
        (Normal tt,
         log (Print text (Returned tt)) (with_prints (tail prints) s))
    | Some e =>
        (Uncaught e, log (Print text (Raised e)) (with_prints (tail prints) s))
    end.

(** [sleep] raises what the handler of a signal that arrives meanwhile
    raises. *)
Definition sleep (secs : Z) : M unit :=
  fun s =>
    let sleeps := w_sleeps (st_world s) in
    match next_mishap sleeps with
    | None =>
        (Normal tt,
         log (Sleep secs (Returned tt)) (with_sleeps (tail sleeps) s))
    | Some e =>
        (Uncaught e, log (Sleep secs (Raised e)) (with_sleeps (tail sleeps) s))
    end.

End Interp.

Export Interp.

(** ** The program *)

Definition UDP_IP : string := "127.0.0.1".
Definition UDP_PORT : Z := 3400.

Definition bytes_dump (idata : bytes) : M ref :=
  do res <- new_list;
  for_each idata (fun byte => list_append res (format_02X (int_of_byte byte))) ;;
  ret res.

(** One turn of the [while True] loop. *)
Definition loop_body (sock : socket) : M unit :=
  do '(data, addr) <- sock_recvfrom sock 16384;
  do dump <- bytes_dump data;
  do hex <- list_repr dump;
  print ("received message: " ++ repr_bytes data ++ nl
         ++ " from " ++ repr_address addr ++ " " ++ str_int (len data)
         ++ " bytes long" ++ nl ++ "hex " ++ hex) ;;
  print ("echoing... to " ++ repr_address addr) ;;
  sleep 1 ;;
  try_except (sock_sendto sock data addr ;; ret tt) Exception
    (fun e => print ("echo failed with " ++ exc_str e)).

(** The module, top to bottom. *)
Definition listener (fuel : nat) : M unit :=
  do sock <- socket_socket AF_INET SOCK_DGRAM;
  sock_bind sock (UDP_IP, UDP_PORT) ;;
  while_true fuel (loop_body sock).

Definition boot (w : world) : state :=
  {| st_world := w; st_heap := []; st_trace := [] |}.

Definition run (fuel : nat) (w : world) : outcome unit * state :=
  listener fuel (boot w).

Definition trace (fuel : nat) (w : world) : list event :=
  st_trace (snd (run fuel w)).

(** ** Derived notions used by the statements *)

(** The token the loop of [bytes_dump] appends for one octet. *)
Definition token (byte : byte) : string := format_02X (int_of_byte byte).

(** The two-character, upper-case, zero-padded hexadecimal rendering of
    an octet, written out digit by digit: the high nibble, then the low
    one. *)
Definition upper_hex_digit (n : Z) : ascii :=
  match n with
  | 0 => "0" | 1 => "1" | 2 => "2" | 3 => "3" | 4 => "4" | 5 => "5"
  | 6 => "6" | 7 => "7" | 8 => "8" | 9 => "9" | 10 => "A" | 11 => "B"
  | 12 => "C" | 13 => "D" | 14 => "E" | _ => "F"
  end%char.

Definition two_hex_digits (b : byte) : string :=
  String (upper_hex_digit (int_of_byte b / 16))
    (String (upper_hex_digit (int_of_byte b mod 16)) EmptyString).

(** The list a call leaves behind, read through the returned reference. *)
Definition returned_list (r : outcome ref * state) : option (list string) :=
  match r with
  | (Normal l, s) => st_heap s !! l
  | _ => None
  end.

(** The three lines the loop can print. *)
Definition record_line (data : bytes) (addr : address) : string :=
  "received message: " ++ repr_bytes data ++ nl
  ++ " from " ++ repr_address addr ++ " " ++ str_int (len data)
  ++ " bytes long" ++ nl ++ "hex " ++ repr_list (List.map token data).

Definition echo_line (addr : address) : string :=
  "echoing... to " ++ repr_address addr.

Definition failure_line (e : exc) : string :=
  "echo failed with " ++ exc_str e.

(** The calls of one turn of the loop up to the [sendto], when all of
    them return. *)
Definition before_send (sock : socket) (data : bytes) (addr : address)
    : list event :=
  [Recvfrom sock 16384 (Some (Returned (data, addr)));
   Print (record_line data addr) (Returned tt);
   Print (echo_line addr) (Returned tt);
   Sleep 1 (Returned tt)].

(** The calls one turn of the loop can make, with how the turn ends. *)
Inductive turn_events (sock : socket) : list event -> outcome unit -> Prop :=
| turn_blocked :
    turn_events sock [Recvfrom sock 16384 None] Blocked
| turn_recv_raised (e : exc) :
    turn_events sock [Recvfrom sock 16384 (Some (Raised e))] (Uncaught e)
| turn_record_raised (data : bytes) (addr : address) (e : exc) :
    len data <= 16384 ->
    turn_events sock
      [Recvfrom sock 16384 (Some (Returned (data, addr)));
       Print (record_line data addr) (Raised e)]
      (Uncaught e)
| turn_echo_line_raised (data : bytes) (addr : address) (e : exc) :
    len data <= 16384 ->
    turn_events sock
      [Recvfrom sock 16384 (Some (Returned (data, addr)));
       Print (record_line data addr) (Returned tt);
       Print (echo_line addr) (Raised e)]
      (Uncaught e)
| turn_sleep_raised (data : bytes) (addr : address) (e : exc) :
    len data <= 16384 ->
    turn_events sock
      [Recvfrom sock 16384 (Some (Returned (data, addr)));
       Print (record_line data addr) (Returned tt);
       Print (echo_line addr) (Returned tt);
       Sleep 1 (Raised e)]
      (Uncaught e)
| turn_echoed (data : bytes) (addr : address) :
    len data <= 16384 ->
    turn_events sock
      (before_send sock data addr
       ++ [Sendto sock data addr (Returned (len data))])%list
      (Normal tt)
| turn_send_caught (data : bytes) (addr : address) (e : exc) :
    len data <= 16384 ->
    isinstance e Exception = true ->
    turn_events sock
      (before_send sock data addr
       ++ [Sendto sock data addr (Raised e);
           Print (failure_line e) (Returned tt)])%list
      (Normal tt)
| turn_handler_raised (data : bytes) (addr : address) (e e' : exc) :
    len data <= 16384 ->
    isinstance e Exception = true ->
    turn_events sock
      (before_send sock data addr
       ++ [Sendto sock data addr (Raised e);
           Print (failure_line e) (Raised e')])%list
      (Uncaught e')
| turn_send_escaped (data : bytes) (addr : address) (e : exc) :
    len data <= 16384 ->
    isinstance e Exception = false ->
    turn_events sock
      (before_send sock data addr ++ [Sendto sock data addr (Raised e)])%list
      (Uncaught e).

(** The calls of the whole loop: turns that end normally, one after the
    other, until a turn does not, or the bound on turns is reached. *)
Inductive loop_events (sock : socket) : list event -> outcome unit -> Prop :=
| loop_cut :
    loop_events sock [] OutOfFuel
| loop_stop (evs : list event) (o : outcome unit) :
    turn_events sock evs o -> o <> Normal tt ->
    loop_events sock evs o
| loop_again (evs rest : list event) (o : outcome unit) :
    turn_events sock evs (Normal tt) -> loop_events sock rest o ->
    loop_events sock (evs ++ rest)%list o.

(** The two calls made before the loop. *)
Definition startup (sock : socket) : list event :=
  [Socket AF_INET SOCK_DGRAM (Returned sock);
   Bind sock ("127.0.0.1", 3400) (Returned tt)].

(** What is left of a turn once [recvfrom] has returned [data] from
    [addr] and the dump has been made. *)
Definition after_receive (sock : socket) (data : bytes) (addr : address)
    : M unit :=
  print (record_line data addr) ;;
  print (echo_line addr) ;;
  sleep 1 ;;
  try_except (sock_sendto sock data addr ;; ret tt) Exception
    (fun e => print (failure_line e)).

(** The state in which that remainder starts. *)
Definition received_state (sock : socket) (data : bytes) (addr : address)
    (inbox : list arrival) (s : state) : state :=
  with_heap (st_heap s ++ [List.map token data])%list
    (log (Recvfrom sock 16384 (Some (Returned (data, addr))))
       (with_inbox inbox s)).

Definition startup_event (ev : event) : Prop :=
  match ev with
  | Socket _ _ _ | Bind _ _ _ => True
  | _ => False
  end.

(** A call the loop may make on the socket [sock]: no socket is created
    or bound, and every receive and send is on [sock]. *)
Definition loop_call (sock : socket) (ev : event) : Prop :=
  match ev with
  | Socket _ _ _ | Bind _ _ _ => False
  | Recvfrom s _ _ | Sendto s _ _ _ => s = sock
  | Print _ _ | Sleep _ _ => True
  end.

(** A receive that asks for at most 16384 bytes and, when it returns a
    datagram, returns at most that many. *)
Definition recv_within_bufsize (ev : event) : Prop :=
  match ev with
  | Recvfrom _ bufsize r =>
      bufsize = 16384
      /\ match r with
         | Some (Returned (data, _)) => len data <= 16384
         | _ => True
         end
  | _ => True
  end.

(** *** Reading a trace *)

(** The datagram a [recvfrom] that returned handed to the program. *)
Definition receipt (ev : event) : option (bytes * address) :=
  match ev with
  | Recvfrom _ _ (Some (Returned got)) => Some got
  | _ => None
  end.

(** The datagram a [sendto] was asked to send, whether it went through
    or not. *)
Definition attempt (ev : event) : option (bytes * address) :=
  match ev with
  | Sendto _ data addr _ => Some (data, addr)
  | _ => None
  end.

Definition received (tr : list event) : list (bytes * address) :=
  omap receipt tr.

Definition echoed (tr : list event) : list (bytes * address) :=
  omap attempt tr.


(** The datagrams at the head of an inbox, up to the first error. *)
Fixpoint leading_datagrams (inbox : list arrival) : list (bytes * address) :=
  match inbox with
  | Datagram payload sender :: inbox =>
      (payload, sender) :: leading_datagrams inbox
  | _ => []
  end.

Definition arrives (d : bytes * address) : arrival := Datagram (fst d) (snd d).

(** What [recvfrom(16384)] makes of a datagram. *)
Definition cut (d : bytes * address) : bytes * address :=
  (take (Z.to_nat 16384) (fst d), snd d).

Definition short (d : bytes * address) : Prop := len (fst d) <= 16384.

(** A fate of a [sendto] that does not end the program. *)
Definition harmless (f : fate) : Prop :=
  match f with
  | Delivered => True
  | SendError e => isinstance e Exception = true
  end.

(** The call [ev] raised [e], and nothing in the program catches it
    there. *)
Definition fatal_call (e : exc) (ev : event) : Prop :=
  match ev with
  | Socket _ _ (Raised e') => e' = e
  | Bind _ _ (Raised e') => e' = e
  | Recvfrom _ _ (Some (Raised e')) => e' = e
  | Print _ (Raised e') => e' = e
  | Sleep _ (Raised e') => e' = e
  | Sendto _ _ _ (Raised e') => e' = e /\ isinstance e Exception = false
  | _ => False
  end.

(** A world in which no [print] and no [sleep] raises, and no [sendto]
    raises anything but an instance of [Exception]. *)
Definition calm (w : world) : Prop :=
  Forall (fun m => m = None) (w_prints w)
  /\ Forall (fun m => m = None) (w_sleeps w)
  /\ Forall harmless (w_sends w).

(** Reading a hex token back. *)
Definition hex_value (c : ascii) : option N :=
  let n := N_of_ascii c in
  if ((48 <=? n) && (n <=? 57))%N then Some (n - 48)%N
  else if ((65 <=? n) && (n <=? 70))%N then Some (n - 55)%N
  else None.

Definition untoken (t : string) : option byte :=
  match t with
  | String h (String l EmptyString) =>
      match hex_value h, hex_value l with
      | Some x, Some y => Byte.of_N (16 * x + y)
      | _, _ => None
      end
  | _ => None
  end.

(** *** Sample worlds *)

Definition client : address := ("127.0.0.1", 50000).

Definition refused : exc :=
  {| exc_type := ConnectionRefusedError;
     exc_str := "[Errno 111] Connection refused" |}.

Definition bad_descriptor : exc :=
  {| exc_type := OSError; exc_str := "[Errno 9] Bad file descriptor" |}.

Definition in_use : exc :=
  {| exc_type := OSError; exc_str := "[Errno 98] Address already in use" |}.


(** What the default handler of SIGINT raises out of an interrupted
    call. *)
Definition interrupt : exc :=
  {| exc_type := KeyboardInterrupt; exc_str := "" |}.

(** A world in which the socket (descriptor 3) is created and bound. *)
Definition listening (inbox : list arrival) (sends : list fate) : world :=
  {| w_socket := Returned 3%nat;
     w_bind := Returned tt;
     w_inbox := inbox;
     w_sends := sends;
     w_prints := [];
     w_sleeps := [] |}.

Definition device_full : exc :=
  {| exc_type := OSError; exc_str := "[Errno 28] No space left on device" |}.

(** The same, with standard output refusing some of the writes. *)
Definition listening_stdout (inbox : list arrival) (sends : list fate)
    (prints : list (option exc)) : world :=
  {| w_socket := Returned 3%nat;
     w_bind := Returned tt;
     w_inbox := inbox;
     w_sends := sends;
     w_prints := prints;
     w_sleeps := [] |}.

(** The same, with a signal arriving during some of the sleeps. *)
Definition listening_signals (inbox : list arrival)
    (sleeps : list (option exc)) : world :=
  {| w_socket := Returned 3%nat;
     w_bind := Returned tt;
     w_inbox := inbox;
     w_sends := [];
     w_prints := [];
     w_sleeps := sleeps |}.

Definition hi : bytes := ["h"%byte; "i"%byte].

(** ** What [bytes_dump] computes *)

Section BytesDump.

Lemma token_two_hex_digits (b : byte) : token b = two_hex_digits b.
Proof. destruct b; vm_compute; reflexivity. Qed.

(** The loop appends to the list at [res] and touches nothing else. *)
Lemma for_each_append (f : byte -> string) (idata : bytes) :
  forall (heap : list (list string)) (acc : list string) (s : state),
    st_heap s = (heap ++ [acc])%list ->
    for_each idata (fun byte => list_append (length heap) (f byte)) s
    = (Normal tt, with_heap (heap ++ [(acc ++ List.map f idata)%list])%list s).
Proof.
  induction idata as [|b idata IH]; intros heap acc s Hs.
  - simpl. unfold ret. rewrite app_nil_r, <- Hs. destruct s; reflexivity.
  - simpl. unfold mbind, list_append at 1.
    rewrite (IH heap (acc ++ [f b])%list).
    + rewrite <- app_assoc. reflexivity.
    + simpl. rewrite Hs.
      replace (length heap) with (length heap + 0)%nat by lia.
      rewrite alter_app_r. reflexivity.
Qed.

Lemma bytes_dump_run (idata : bytes) (s : state) :
  bytes_dump idata s
  = (Normal (length (st_heap s)),
     with_heap (st_heap s ++ [List.map token idata])%list s).
Proof.
  unfold bytes_dump, mbind, new_list.
  rewrite (for_each_append token idata (st_heap s) []); reflexivity.
Qed.

End BytesDump.

(** ** One turn of the loop *)

(** Runs the calls of a turn on the state at hand. *)
Ltac turn_step :=
  cbn [st_world w_prints w_sleeps w_sends w_inbox log with_prints with_sleeps
       with_sends with_heap with_inbox fst snd st_trace ret].

(** Closes a case of a turn: its calls, their shape, the inbox. *)
Ltac turn_leaf :=
  eexists;
  split; [rewrite <- ?app_assoc; reflexivity|];
  split; [econstructor; eassumption|reflexivity].

Section Turn.

Variable sock : socket.

#[local] Arguments Z.to_nat : simpl never.


Lemma loop_body_blocked (s : state) :
  w_inbox (st_world s) = [] ->
  loop_body sock s = (Blocked, log (Recvfrom sock 16384 None) s).
Proof.
  intros H. unfold loop_body, mbind, sock_recvfrom. simpl. rewrite H.
  reflexivity.
Qed.

Lemma loop_body_recv_raised (s : state) (e : exc) (inbox : list arrival) :
  w_inbox (st_world s) = RecvError e :: inbox ->
  loop_body sock s
  = (Uncaught e,
     log (Recvfrom sock 16384 (Some (Raised e))) (with_inbox inbox s)).
Proof.
  intros H. unfold loop_body, mbind, sock_recvfrom. simpl. rewrite H.
  reflexivity.
Qed.

(** Once a datagram is received and dumped, the turn goes on as
    [after_receive] says. *)
Lemma loop_body_received (s : state) (payload : bytes) (sender : address)
    (inbox : list arrival) :
  w_inbox (st_world s) = Datagram payload sender :: inbox ->
  loop_body sock s
  = after_receive sock (take (Z.to_nat 16384) payload) sender
      (received_state sock (take (Z.to_nat 16384) payload) sender inbox s).
Proof.
  intros H. unfold loop_body, mbind at 1, sock_recvfrom.
  change (16384 <? 0) with false. cbv iota. rewrite H.
  unfold mbind at 1. rewrite bytes_dump_run.
  unfold mbind at 1, list_repr.
  unfold received_state, with_heap at 1. cbn [st_heap log with_inbox].
  rewrite list_lookup_middle by reflexivity.
  reflexivity.
Qed.

Lemma len_take_bufsize (payload : bytes) :
  len (take (Z.to_nat 16384) payload) <= 16384.
Proof. unfold len. rewrite length_take. lia. Qed.

(** What is left of a turn makes the calls of one of the shapes of
    [turn_events] and leaves the inbox alone. *)
Lemma after_receive_turn (data : bytes) (addr : address) (s : state) :
  len data <= 16384 ->
  exists rest : list event,
    st_trace (snd (after_receive sock data addr s)) = (st_trace s ++ rest)%list
    /\ turn_events sock
         (Recvfrom sock 16384 (Some (Returned (data, addr))) :: rest)
         (fst (after_receive sock data addr s))
    /\ w_inbox (st_world (snd (after_receive sock data addr s)))
       = w_inbox (st_world s).
Proof.
  intros Hlen.
  unfold after_receive, mbind, print, sleep, try_except, sock_sendto.
  cbn [st_world w_prints w_sleeps w_sends w_inbox log with_prints with_sleeps
       with_sends fst snd st_trace].
  destruct (next_mishap (w_prints (st_world s))) as [e1|]; turn_step;
    [turn_leaf|].
  destruct (next_mishap (tail (w_prints (st_world s)))) as [e2|]; turn_step;
    [turn_leaf|].
  destruct (next_mishap (w_sleeps (st_world s))) as [e3|]; turn_step;
    [turn_leaf|].
  destruct (next_fate (w_sends (st_world s))) as [|e]; turn_step;
    [turn_leaf|].
  destruct (isinstance e Exception) eqn:Hexc; turn_step; [|turn_leaf].
  destruct (next_mishap (tail (tail (w_prints (st_world s))))) as [e4|];
    turn_step; turn_leaf.
Qed.

Lemma turn_events_fuel (evs : list event) (o : outcome unit) :
  turn_events sock evs o -> o <> OutOfFuel.
Proof. intros H; inversion H; discriminate. Qed.

(** Whatever the state, one turn makes the calls of one of the shapes
    of [turn_events]; a turn that ends normally has taken one arrival
    from the inbox. *)
Lemma loop_body_turn (s : state) :
  exists evs : list event,
    st_trace (snd (loop_body sock s)) = (st_trace s ++ evs)%list
    /\ turn_events sock evs (fst (loop_body sock s))
    /\ (fst (loop_body sock s) = Normal tt ->
        length (w_inbox (st_world s))
        = S (length (w_inbox (st_world (snd (loop_body sock s)))))).
Proof.
  destruct (w_inbox (st_world s)) as [|[payload sender|e] inbox] eqn:Hin.
  - rewrite loop_body_blocked by assumption.
    eexists. split; [reflexivity|]. split; [constructor|discriminate].
  - rewrite (loop_body_received s payload sender inbox) by assumption.
    destruct (after_receive_turn (take (Z.to_nat 16384) payload) sender
                (received_state sock (take (Z.to_nat 16384) payload) sender
                   inbox s) (len_take_bufsize payload))
      as (rest & Htr & Hturn & Hsame).
    eexists. split; [|split; [exact Hturn|]].
    + rewrite Htr. unfold received_state. cbn [st_trace with_heap log with_inbox].
      rewrite <- app_assoc. reflexivity.
    + intros _. rewrite Hsame. reflexivity.
  - rewrite (loop_body_recv_raised s e inbox) by assumption.
    eexists. split; [reflexivity|]. split; [constructor|discriminate].
Qed.

End Turn.
(** ** The loop and the whole program *)

Section Loop.

Variable sock : socket.

Lemma while_true_events (fuel : nat) :
  forall s : state,
    exists evs : list event,
      st_trace (snd (while_true fuel (loop_body sock) s))
      = (st_trace s ++ evs)%list
      /\ loop_events sock evs (fst (while_true fuel (loop_body sock) s)).
Proof.
  induction fuel as [|fuel IH]; intros s.
  - exists []. simpl. rewrite app_nil_r. split; [reflexivity|constructor].
  - destruct (loop_body_turn sock s) as (evs & Htr & Hturn & _).
    simpl. unfold mbind.
    destruct (loop_body sock s) as [[[]|e| |] s1]; simpl in *.
    + destruct (IH s1) as (rest & Htr' & Hloop).
      exists (evs ++ rest)%list. rewrite Htr', Htr, app_assoc.
      split; [reflexivity|]. now apply loop_again.
    + exists evs. split; [assumption|]. now apply loop_stop.
    + exists evs. split; [assumption|]. now apply loop_stop.
    + exists evs. split; [assumption|]. now apply loop_stop.
Qed.

(** With more fuel than arrivals the loop never stops for lack of
    fuel: it ends blocked in [recvfrom], or by an exception. *)
Lemma while_true_enough_fuel (fuel : nat) :
  forall s : state,
    (length (w_inbox (st_world s)) < fuel)%nat ->
    fst (while_true fuel (loop_body sock) s) <> OutOfFuel.
Proof.
  induction fuel as [|fuel IH]; intros s Hlt; [lia|].
  destruct (loop_body_turn sock s) as (evs & _ & Hturn & Hin).
  simpl. unfold mbind.
  destruct (loop_body sock s) as [[[]|e| |] s1]; simpl in *;
    try discriminate.
  - apply IH. specialize (Hin eq_refl). lia.
  - now apply turn_events_fuel in Hturn.
Qed.

(** Once the loop ends for another reason than the bound on turns, a
    larger bound changes nothing. *)
Lemma while_true_more_fuel (body : M unit) (fuel extra : nat) :
  forall s : state,
    fst (while_true fuel body s) <> OutOfFuel ->
    while_true (fuel + extra) body s = while_true fuel body s.
Proof.
  induction fuel as [|fuel IH]; intros s Hne.
  - simpl in Hne. congruence.
  - simpl in *. unfold mbind in *.
    destruct (body s) as [[[]|e| |] s1]; try reflexivity.
    now apply IH.
Qed.

(** Every call of the loop lies in the calls of one turn. *)
Lemma loop_events_block (evs : list event) (o : outcome unit) :
  loop_events sock evs o ->
  forall i : nat,
    (i < length evs)%nat ->
    exists (pre blk post : list event) (o' : outcome unit),
      evs = (pre ++ blk ++ post)%list
      /\ turn_events sock blk o'
      /\ (length pre <= i < length pre + length blk)%nat
      /\ ((o' = Normal tt /\ loop_events sock post o)
          \/ (o' <> Normal tt /\ post = [] /\ o' = o)).
Proof.
  induction 1 as [|evs o Hturn Hne|evs rest o Hturn Hloop IH]; intros i Hi.
  - simpl in Hi. lia.
  - exists [], evs, [], o. rewrite app_nil_r. simpl.
    repeat split; try assumption; try lia. right. auto.
  - rewrite length_app in Hi.
    destruct (decide (i < length evs)%nat) as [Hlt|Hge].
    + exists [], evs, rest, (Normal tt). simpl.
      repeat split; try assumption; try lia. left. auto.
    + destruct (IH (i - length evs)%nat) as (pre & blk & post & o' & -> & Hb & Hr & Hk);
        [lia|].
      exists (evs ++ pre)%list, blk, post, o'.
      rewrite length_app, <- app_assoc.
      repeat split; try assumption; lia.
Qed.

End Loop.

Section Program.

Lemma run_socket_raised (fuel : nat) (w : world) (e : exc) :
  w_socket w = Raised e ->
  run fuel w
  = (Uncaught e, log (Socket AF_INET SOCK_DGRAM (Raised e)) (boot w)).
Proof.
  intros H. unfold run, listener, mbind, socket_socket. simpl.
  rewrite H. reflexivity.
Qed.

Lemma run_bind_raised (fuel : nat) (w : world) (sock : socket) (e : exc) :
  w_socket w = Returned sock -> w_bind w = Raised e ->
  run fuel w
  = (Uncaught e,
     log (Bind sock ("127.0.0.1", 3400) (Raised e))
       (log (Socket AF_INET SOCK_DGRAM (Returned sock)) (boot w))).
Proof.
  intros Hs Hb. unfold run, listener, mbind, socket_socket, sock_bind.
  simpl. rewrite Hs, Hb. reflexivity.
Qed.

Lemma run_started (fuel : nat) (w : world) (sock : socket) (u : unit) :
  w_socket w = Returned sock -> w_bind w = Returned u ->
  run fuel w
  = while_true fuel (loop_body sock)
      (log (Bind sock ("127.0.0.1", 3400) (Returned tt))
         (log (Socket AF_INET SOCK_DGRAM (Returned sock)) (boot w))).
Proof.
  intros Hs Hb. destruct u.
  unfold run, listener, mbind, socket_socket, sock_bind.
  simpl. rewrite Hs, Hb. reflexivity.
Qed.

Lemma trace_started (fuel : nat) (w : world) (sock : socket) (u : unit) :
  w_socket w = Returned sock -> w_bind w = Returned u ->
  exists evs : list event,
    trace fuel w = (startup sock ++ evs)%list
    /\ loop_events sock evs (fst (run fuel w)).
Proof.
  intros Hs Hb. unfold trace. rewrite (run_started fuel w sock u Hs Hb).
  destruct (while_true_events sock fuel
              (log (Bind sock ("127.0.0.1", 3400) (Returned tt))
                 (log (Socket AF_INET SOCK_DGRAM (Returned sock)) (boot w))))
    as (evs & Htr & Hloop).
  exists evs. split; assumption.
Qed.

Lemma run_more_fuel (fuel extra : nat) (w : world) :
  fst (run fuel w) <> OutOfFuel -> run (fuel + extra) w = run fuel w.
Proof.
  unfold run, listener, mbind.
  destruct (socket_socket AF_INET SOCK_DGRAM (boot w)) as [[sock|e| |] s1];
    try reflexivity.
  destruct (sock_bind sock (UDP_IP, UDP_PORT) s1) as [[[]|e| |] s2];
    try reflexivity.
  apply while_true_more_fuel.
Qed.

Lemma run_enough_fuel (fuel : nat) (w : world) :
  (length (w_inbox w) < fuel)%nat -> fst (run fuel w) <> OutOfFuel.
Proof.
  intros Hlt.
  destruct (w_socket w) as [sock|e] eqn:Hs.
  - destruct (w_bind w) as [u|e] eqn:Hb.
    + rewrite (run_started fuel w sock u Hs Hb).
      now apply while_true_enough_fuel.
    + rewrite (run_bind_raised fuel w sock e Hs Hb). discriminate.
  - rewrite (run_socket_raised fuel w e Hs). discriminate.
Qed.

(** Every call in a trace of the program is one of the two calls of
    the start, or lies in the calls of one turn of the loop. *)
Lemma trace_block (fuel : nat) (w : world) (i : nat) (ev : event) :
  trace fuel w !! i = Some ev ->
  startup_event ev
  \/ exists (sock : socket) (pre blk post : list event) (o' : outcome unit)
       (k : nat),
      trace fuel w = (pre ++ blk ++ post)%list
      /\ turn_events sock blk o'
      /\ i = (length pre + k)%nat
      /\ blk !! k = Some ev
      /\ ((o' = Normal tt /\ loop_events sock post (fst (run fuel w)))
          \/ (o' <> Normal tt /\ post = [] /\ o' = fst (run fuel w))).
Proof.
  intros Hev.
  destruct (w_socket w) as [sock|e] eqn:Hs.
  - destruct (w_bind w) as [u|e] eqn:Hb.
    + destruct (trace_started fuel w sock u Hs Hb) as (evs & Htr & Hloop).
      rewrite Htr in Hev |- *.
      destruct i as [|[|i]]; simpl in Hev.
      * injection Hev as <-. left. exact I.
      * injection Hev as <-. left. exact I.
      * right.
        destruct (loop_events_block sock evs _ Hloop i)
          as (pre & blk & post & o' & -> & Hturn & Hr & Hk).
        { now apply lookup_lt_Some in Hev. }
        exists sock, (startup sock ++ pre)%list, blk, post, o',
          (i - length pre)%nat.
        split; [now rewrite <- app_assoc|].
        split; [assumption|].
        split; [rewrite length_app; simpl; lia|].
        split; [|assumption].
        rewrite lookup_app_r in Hev by lia.
        rewrite lookup_app_l in Hev by lia. assumption.
    + unfold trace in Hev. rewrite (run_bind_raised fuel w sock e Hs Hb) in Hev.
      destruct i as [|[|i]]; simpl in Hev; try discriminate;
        injection Hev as <-; left; exact I.
  - unfold trace in Hev. rewrite (run_socket_raised fuel w e Hs) in Hev.
    destruct i as [|i]; simpl in Hev; try discriminate;
      injection Hev as <-; left; exact I.
Qed.

Lemma block_lookup (tr pre blk post : list event) (k : nat) (ev : event) :
  tr = (pre ++ blk ++ post)%list ->
  blk !! k = Some ev ->
  tr !! (length pre + k)%nat = Some ev.
Proof.
  intros -> Hk.
  rewrite lookup_app_r by lia.
  replace (length pre + k - length pre)%nat with k by lia.
  now apply lookup_app_l_Some.
Qed.

Lemma turn_events_head (sock : socket) (evs : list event) (o : outcome unit) :
  turn_events sock evs o ->
  exists r rest, evs = Recvfrom sock 16384 r :: rest.
Proof. intros H; inversion H; simpl; eauto. Qed.

(** Unless the bound on turns is reached, the loop goes on with a
    [recvfrom]. *)
Lemma loop_events_head (sock : socket) (evs : list event) (o : outcome unit) :
  loop_events sock evs o -> o <> OutOfFuel ->
  exists r rest, evs = Recvfrom sock 16384 r :: rest.
Proof.
  intros H Hne. inversion H as [|? ? Hturn|? ? ? Hturn]; subst.
  - congruence.
  - now apply turn_events_head in Hturn.
  - apply turn_events_head in Hturn as (r & rest' & ->). simpl. eauto.
Qed.

Lemma loop_events_Forall (P : event -> Prop) (sock : socket) :
  (forall blk o, turn_events sock blk o -> Forall P blk) ->
  forall evs o, loop_events sock evs o -> Forall P evs.
Proof.
  intros HP evs o H.
  induction H as [|evs o Hturn|evs rest o Hturn Hloop IH].
  - constructor.
  - eapply HP, Hturn.
  - apply Forall_app. split; [eapply HP, Hturn|assumption].
Qed.

End Program.

Lemma after_block (tr pre blk rest : list event) (ev : event) :
  tr = (pre ++ blk ++ ev :: rest)%list ->
  tr !! (length pre + length blk)%nat = Some ev.
Proof.
  intros ->. rewrite app_assoc.
  apply list_lookup_middle. now rewrite length_app.
Qed.

Lemma lookup_map_token (idata : bytes) (i : nat) :
  List.map token idata !! i = two_hex_digits <$> idata !! i.
Proof.
  revert i. induction idata as [|b idata IH]; intros [|i]; simpl;
    try reflexivity.
  - now rewrite token_two_hex_digits.
  - apply IH.
Qed.

(** Picks the turn of the loop a call of the trace lies in, and which
    call of that turn it is. *)
Ltac in_turn Hev :=
  let sock := fresh "sock0" in
  let pre := fresh "pre" in
  let blk := fresh "blk" in
  let post := fresh "post" in
  let o := fresh "o'" in
  let k := fresh "k" in
  let Htr := fresh "Htr" in
  let Hturn := fresh "Hturn" in
  let Hk := fresh "Hk" in
  let Hend := fresh "Hend" in
  destruct (trace_block _ _ _ _ Hev)
    as [[]|(sock & pre & blk & post & o & k & Htr & Hturn & -> & Hk & Hend)];
  inversion Hturn; subst blk; subst o;
  repeat (destruct k as [|k]; simpl in Hk; try discriminate Hk);
  inversion Hk; subst; clear Hk.

(** Reads the trace at an offset inside the turn found by [in_turn]. *)
Ltac at_offset Htr n :=
  match goal with
  | |- _ !! ?i = Some _ =>
      match type of Htr with
      | _ = (?pre ++ _ ++ _)%list =>
          replace i with (length pre + n)%nat by lia;
          apply (block_lookup _ _ _ _ _ _ Htr); reflexivity
      end
  end.

(** ** Theorems *)

(** C1.  Whenever a [sendto] of the main loop goes through, the bytes
    and the destination it was given are exactly the bytes and the
    sender address that the [recvfrom] of the same turn returned, four
    calls earlier, with only the two prints and the sleep in between;
    the bytes are at most 16384 and all of them are sent. *)
Theorem echo_sends_what_was_received (fuel : nat) (w : world) (i : nat)
    (sock : socket) (data : bytes) (addr : address) (n : Z) :
  trace fuel w !! i = Some (Sendto sock data addr (Returned n)) ->
  exists j : nat,
    i = (j + 4)%nat
    /\ trace fuel w !! j
       = Some (Recvfrom sock 16384 (Some (Returned (data, addr))))
    /\ trace fuel w !! (j + 1)%nat
       = Some (Print (record_line data addr) (Returned tt))
    /\ trace fuel w !! (j + 2)%nat
       = Some (Print (echo_line addr) (Returned tt))
    /\ trace fuel w !! (j + 3)%nat = Some (Sleep 1 (Returned tt))
    /\ 0 <= len data <= 16384
    /\ n = len data.
Proof.
  intros Hev. in_turn Hev.
  exists (length pre + 0)%nat.
  split; [lia|].
  split; [at_offset Htr 0%nat|].
  split; [at_offset Htr 1%nat|].
  split; [at_offset Htr 2%nat|].
  split; [at_offset Htr 3%nat|].
  split; [unfold len in *; lia|reflexivity].
Qed.

(** C2.  [bytes_dump] returns a list as long as its input whose i-th
    element is the two upper-case, zero-padded hexadecimal digits of the
    i-th octet, in input order; 0 gives "00", 10 gives "0A" and 255
    gives "FF". *)
Theorem bytes_dump_tokens (idata : bytes) (s : state) :
  exists tokens : list string,
    returned_list (bytes_dump idata s) = Some tokens
    /\ length tokens = length idata
    /\ (forall i : nat, tokens !! i = two_hex_digits <$> idata !! i)
    /\ returned_list (bytes_dump [x00; x0a; xff] s) = Some ["00"; "0A"; "FF"].
Proof.
  exists (List.map token idata).
  rewrite !bytes_dump_run. simpl.
  split; [now apply list_lookup_middle|].
  split; [apply length_map|].
  split; [apply lookup_map_token|].
  now apply list_lookup_middle.
Qed.



(** C4.  In every turn of the loop the calls come in one order: the
    [recvfrom] returns, then the datagram record is printed, then, if
    that print returned, the line naming the echo destination, then, if
    that one returned too, the program sleeps one second, and then, if
    the sleep ran to its end, comes the [sendto].  Conversely every
    [sendto] is the fifth call of a turn in which the receive, the two
    prints and the sleep of one second all returned before it, so that
    none is made before the sleep of its turn. *)
Theorem turn_order (fuel : nat) (w : world) :
  (forall (j : nat) (sock : socket) (bufsize : Z) (data : bytes)
          (addr : address),
      trace fuel w !! j
      = Some (Recvfrom sock bufsize (Some (Returned (data, addr)))) ->
      exists r1 : result unit,
        trace fuel w !! (j + 1)%nat = Some (Print (record_line data addr) r1)
        /\ (r1 = Returned tt ->
            exists r2 : result unit,
              trace fuel w !! (j + 2)%nat = Some (Print (echo_line addr) r2)
              /\ (r2 = Returned tt ->
                  exists r3 : result unit,
                    trace fuel w !! (j + 3)%nat = Some (Sleep 1 r3)
                    /\ (r3 = Returned tt ->
                        exists r,
                          trace fuel w !! (j + 4)%nat
                          = Some (Sendto sock data addr r)))))
  /\ (forall (i : nat) (sock : socket) (data : bytes) (addr : address)
             (r : result Z),
         trace fuel w !! i = Some (Sendto sock data addr r) ->
         exists j : nat,
           i = (j + 4)%nat
           /\ trace fuel w !! j
              = Some (Recvfrom sock 16384 (Some (Returned (data, addr))))
           /\ trace fuel w !! (j + 1)%nat
              = Some (Print (record_line data addr) (Returned tt))
           /\ trace fuel w !! (j + 2)%nat
              = Some (Print (echo_line addr) (Returned tt))
           /\ trace fuel w !! (j + 3)%nat = Some (Sleep 1 (Returned tt))).
Proof.
  split.
  - intros j sock bufsize data addr Hev. in_turn Hev.
    all: eexists; split; [at_offset Htr 1%nat|]; intros Hr1;
      try discriminate Hr1.
    all: eexists; split; [at_offset Htr 2%nat|]; intros Hr2;
      try discriminate Hr2.
    all: eexists; split; [at_offset Htr 3%nat|]; intros Hr3;
      try discriminate Hr3.
    all: eexists; at_offset Htr 4%nat.
  - intros i sock data addr r Hev. in_turn Hev.
    all: exists (length pre + 0)%nat.
    all: split; [lia|].
    all: split; [at_offset Htr 0%nat|].
    all: split; [at_offset Htr 1%nat|].
    all: split; [at_offset Htr 2%nat|at_offset Htr 3%nat].
Qed.

(** C5.  A datagram of no bytes is received like any other: when the
    prints and the sleep of the turn return and the send goes through,
    the turn ends normally after printing the record (with length 0 and
    the empty hex dump [[]]) and the echo line, sleeping, and sending
    back a datagram of no bytes to the sender. *)
Theorem empty_datagram_is_echoed (sock : socket) (s : state)
    (sender : address) (inbox : list arrival) :
  w_inbox (st_world s) = Datagram [] sender :: inbox ->
  next_mishap (w_prints (st_world s)) = None ->
  next_mishap (tail (w_prints (st_world s))) = None ->
  next_mishap (w_sleeps (st_world s)) = None ->
  next_fate (w_sends (st_world s)) = Delivered ->
  fst (loop_body sock s) = Normal tt
  /\ st_trace (snd (loop_body sock s))
     = (st_trace s
        ++ [Recvfrom sock 16384 (Some (Returned ([], sender)));
            Print ("received message: b''" ++ nl ++ " from "
                   ++ repr_address sender ++ " 0 bytes long" ++ nl
                   ++ "hex []") (Returned tt);
            Print ("echoing... to " ++ repr_address sender) (Returned tt);
            Sleep 1 (Returned tt);
            Sendto sock [] sender (Returned 0)])%list.
Proof.
  intros Hin Hp1 Hp2 Hsl Hfate.
  rewrite (loop_body_received sock s [] sender inbox Hin).
  rewrite take_nil.
  unfold after_receive, received_state, mbind, print, sleep, try_except,
    sock_sendto.
  turn_step.
  rewrite Hp1. turn_step. rewrite Hp2. turn_step. rewrite Hsl. turn_step.
  rewrite Hfate. turn_step.
  split; [reflexivity|].
  rewrite <- !app_assoc. reflexivity.
Qed.

(** C6.  An exception raised by [recvfrom], of whatever class, is
    caught nowhere: the program ends with that exception uncaught, and
    the failed [recvfrom] is the last call it makes. *)
Theorem recvfrom_error_propagates (fuel : nat) (w : world) (i : nat)
    (sock : socket) (bufsize : Z) (e : exc) :
  trace fuel w !! i = Some (Recvfrom sock bufsize (Some (Raised e))) ->
  fst (run fuel w) = Uncaught e /\ length (trace fuel w) = S i.
Proof.
  intros Hev. in_turn Hev.
  destruct Hend as [[Hn _]|(_ & -> & <-)]; [discriminate|].
  split; [reflexivity|].
  rewrite Htr, !length_app. simpl. lia.
Qed.

(** C7.  The program first creates one UDP socket ([AF_INET],
    [SOCK_DGRAM]) and binds it to 127.0.0.1, port 3400; the loop makes
    no further [socket] or [bind] call and works on that socket only.
    If creating the socket raises, or the bind does, the program ends
    with that exception uncaught and the failed call is its last: no
    turn of the loop runs. *)
Theorem startup_binds_once_or_dies (fuel : nat) (w : world) :
  match w_socket w with
  | Raised e =>
      fst (run fuel w) = Uncaught e
      /\ trace fuel w = [Socket AF_INET SOCK_DGRAM (Raised e)]
  | Returned sock =>
      match w_bind w with
      | Raised e =>
          fst (run fuel w) = Uncaught e
          /\ trace fuel w
             = [Socket AF_INET SOCK_DGRAM (Returned sock);
                Bind sock ("127.0.0.1", 3400) (Raised e)]
      | Returned _ =>
          exists evs : list event,
            trace fuel w
            = ([Socket AF_INET SOCK_DGRAM (Returned sock);
                Bind sock ("127.0.0.1", 3400) (Returned tt)] ++ evs)%list
            /\ Forall (loop_call sock) evs
      end
  end.
Proof.
  destruct (w_socket w) as [sock|e] eqn:Hs.
  - destruct (w_bind w) as [u|e] eqn:Hb.
    + destruct (trace_started fuel w sock u Hs Hb) as (evs & Htr & Hloop).
      exists evs. split; [exact Htr|].
      eapply loop_events_Forall; [|exact Hloop].
      intros blk o Hturn. inversion Hturn; repeat constructor.
    + unfold trace. rewrite (run_bind_raised fuel w sock e Hs Hb).
      split; reflexivity.
  - unfold trace. rewrite (run_socket_raised fuel w e Hs).
    split; reflexivity.
Qed.

(** C8.  Every [recvfrom] the program makes is given the byte count
    16384, and the datagram it returns is at most 16384 bytes long. *)
Theorem recvfrom_reads_at_most_16384 (fuel : nat) (w : world) :
  Forall recv_within_bufsize (trace fuel w).
Proof.
  destruct (w_socket w) as [sock|e] eqn:Hs.
  - destruct (w_bind w) as [u|e] eqn:Hb.
    + destruct (trace_started fuel w sock u Hs Hb) as (evs & -> & Hloop).
      apply Forall_app. split; [repeat constructor|].
      eapply loop_events_Forall; [|exact Hloop].
      intros blk o Hturn. inversion Hturn; repeat constructor; assumption.
    + unfold trace. rewrite (run_bind_raised fuel w sock e Hs Hb).
      repeat constructor.
  - unfold trace. rewrite (run_socket_raised fuel w e Hs).
    repeat constructor.
Qed.



(** C10.  A call of [bytes_dump] always returns, and all it does to the
    state is to add one new list, the one it returns: the world, the
    trace and the lists that were there are as before (its argument is
    an immutable [bytes] value).  What that list holds depends on the
    argument alone: a run in any other state returns the same tokens. *)
Theorem bytes_dump_pure (idata : bytes) (s : state) :
  exists tokens : list string,
    bytes_dump idata s
    = (Normal (length (st_heap s)), with_heap (st_heap s ++ [tokens])%list s)
    /\ st_world (snd (bytes_dump idata s)) = st_world s
    /\ st_trace (snd (bytes_dump idata s)) = st_trace s
    /\ take (length (st_heap s)) (st_heap (snd (bytes_dump idata s)))
       = st_heap s
    /\ forall s2 : state, returned_list (bytes_dump idata s2) = Some tokens.
Proof.
  exists (List.map token idata).
  rewrite bytes_dump_run. simpl.
  split; [reflexivity|].
  split; [reflexivity|].
  split; [reflexivity|].
  split; [now rewrite take_app_length|].
  intros s2. rewrite bytes_dump_run. simpl. now apply list_lookup_middle.
Qed.

(** ** The theorems at work on sample worlds *)

Lemma echo_sends_what_was_received_witness :
  trace 1 (listening [Datagram hi client] []) !! 6%nat
  = Some (Sendto 3%nat hi client (Returned 2))
  /\ exists j : nat,
      6%nat = (j + 4)%nat
      /\ trace 1 (listening [Datagram hi client] []) !! j
         = Some (Recvfrom 3%nat 16384 (Some (Returned (hi, client)))).
Proof.
  split; [reflexivity|].
  destruct (echo_sends_what_was_received 1 (listening [Datagram hi client] [])
              6 3%nat hi client 2) as (j & Hi & Hj & _);
    [reflexivity|].
  exists j. split; assumption.
Defined.


Lemma turn_order_witness :
  let w := listening_stdout [Datagram hi client; Datagram [] client] []
             [None; None; None; Some device_full] in
  trace 3 w !! 2%nat
  = Some (Recvfrom 3%nat 16384 (Some (Returned (hi, client))))
  /\ trace 3 w !! 6%nat = Some (Sendto 3%nat hi client (Returned 2))
  /\ trace 3 w !! 7%nat
     = Some (Recvfrom 3%nat 16384 (Some (Returned ([], client))))
  /\ (exists j : nat,
        6%nat = (j + 4)%nat
        /\ trace 3 w !! (j + 3)%nat = Some (Sleep 1 (Returned tt)))
  /\ (exists r1 : result unit,
        trace 3 w !! 8%nat = Some (Print (record_line [] client) r1)
        /\ (r1 = Returned tt ->
            exists r2 : result unit,
              trace 3 w !! 9%nat = Some (Print (echo_line client) r2))).
Proof.
  intros w.
  assert (Hsend : trace 3 w !! 6%nat
                  = Some (Sendto 3%nat hi client (Returned 2)))
    by reflexivity.
  assert (Hrecv : trace 3 w !! 7%nat
                  = Some (Recvfrom 3%nat 16384 (Some (Returned ([], client)))))
    by reflexivity.
  split; [reflexivity|]. split; [assumption|]. split; [assumption|].
  destruct (turn_order 3 w) as [Hforward Hbackward].
  split.
  - destruct (Hbackward 6%nat 3%nat hi client (Returned 2) Hsend)
      as (j & Hj & _ & _ & _ & Hsleep).
    exists j. split; assumption.
  - destruct (Hforward 7%nat 3%nat 16384 [] client Hrecv) as (r1 & Hp1 & Hnext).
    exists r1. split; [exact Hp1|].
    intros Hr1. destruct (Hnext Hr1) as (r2 & Hp2 & _).
    exists r2. exact Hp2.
Defined.

Lemma empty_datagram_is_echoed_witness :
  let s := boot (listening [Datagram [] client] []) in
  w_inbox (st_world s) = [Datagram [] client]
  /\ next_mishap (w_prints (st_world s)) = None
  /\ next_mishap (tail (w_prints (st_world s))) = None
  /\ next_mishap (w_sleeps (st_world s)) = None
  /\ next_fate (w_sends (st_world s)) = Delivered
  /\ fst (loop_body 3%nat s) = Normal tt
  /\ st_trace (snd (loop_body 3%nat s))
     = [Recvfrom 3%nat 16384 (Some (Returned ([], client)));
        Print ("received message: b''" ++ nl
               ++ " from ('127.0.0.1', 50000) 0 bytes long" ++ nl
               ++ "hex []") (Returned tt);
        Print "echoing... to ('127.0.0.1', 50000)" (Returned tt);
        Sleep 1 (Returned tt);
        Sendto 3%nat [] client (Returned 0)].
Proof.
  intros s.
  do 5 (split; [reflexivity|]).
  exact (empty_datagram_is_echoed 3%nat s client [] eq_refl eq_refl eq_refl
           eq_refl eq_refl).
Defined.

Lemma recvfrom_error_propagates_witness :
  let w := listening [Datagram hi client; RecvError bad_descriptor] [] in
  trace 5 w !! 7%nat
  = Some (Recvfrom 3%nat 16384 (Some (Raised bad_descriptor)))
  /\ fst (run 5 w) = Uncaught bad_descriptor
  /\ length (trace 5 w) = 8%nat.
Proof.
  intros w.
  assert (Hev : trace 5 w !! 7%nat
                = Some (Recvfrom 3%nat 16384 (Some (Raised bad_descriptor))))
    by reflexivity.
  split; [assumption|].
  exact (recvfrom_error_propagates 5 w 7 3%nat 16384 bad_descriptor Hev).
Defined.

(** ** More on [bytes_dump] *)

Section MoreBytesDump.

Lemma untoken_token (b : byte) : untoken (token b) = Some b.
Proof. destruct b; vm_compute; reflexivity. Qed.

Lemma token_inj (a b : byte) : token a = token b -> a = b.
Proof.
  intros H. apply (f_equal untoken) in H.
  rewrite !untoken_token in H. congruence.
Qed.

Lemma map_token_inj (a : bytes) :
  forall b : bytes, List.map token a = List.map token b -> a = b.
Proof.
  induction a as [|x a IH]; intros [|y b] H; simpl in H;
    try discriminate; [reflexivity|].
  injection H as Hxy Hab. f_equal; [now apply token_inj|now apply IH].
Qed.

Lemma returned_list_bytes_dump (idata : bytes) (s : state) :
  returned_list (bytes_dump idata s) = Some (List.map token idata).
Proof. rewrite bytes_dump_run. simpl. now apply list_lookup_middle. Qed.

End MoreBytesDump.

(** X1.  The dump of two byte strings joined is the dump of the first
    followed by the dump of the second. *)
Theorem bytes_dump_app (a b : bytes) (s : state) :
  exists ta tb : list string,
    returned_list (bytes_dump a s) = Some ta
    /\ returned_list (bytes_dump b s) = Some tb
    /\ returned_list (bytes_dump (a ++ b)%list s) = Some (ta ++ tb)%list.
Proof.
  exists (List.map token a), (List.map token b).
  rewrite !returned_list_bytes_dump, List.map_app. auto.
Qed.

(** X2.  The dump loses nothing: byte strings with the same dump are
    the same, in whatever states the dumps were made. *)
Theorem bytes_dump_inj (a b : bytes) (s1 s2 : state) :
  returned_list (bytes_dump a s1) = returned_list (bytes_dump b s2) ->
  a = b.
Proof.
  rewrite !returned_list_bytes_dump. intros H.
  apply map_token_inj. congruence.
Qed.

(** X3.  Each call builds a list of its own: a second call returns
    another reference than the first and leaves the first list as it
    was. *)
Theorem bytes_dump_fresh_list (a b : bytes) (s : state) :
  exists (r1 r2 : ref) (s1 s2 : state),
    bytes_dump a s = (Normal r1, s1)
    /\ bytes_dump b s1 = (Normal r2, s2)
    /\ r1 <> r2
    /\ st_heap s1 !! r1 = Some (List.map token a)
    /\ st_heap s2 !! r1 = Some (List.map token a)
    /\ st_heap s2 !! r2 = Some (List.map token b).
Proof.
  eexists _, _, _, _.
  split; [apply bytes_dump_run|].
  split; [apply bytes_dump_run|].
  simpl. rewrite length_app. simpl.
  split; [lia|].
  split; [now apply list_lookup_middle|].
  split.
  - rewrite lookup_app_l by (rewrite length_app; simpl; lia).
    now apply list_lookup_middle.
  - apply list_lookup_middle. now rewrite length_app.
Qed.


(** ** What the loop does to the inbox *)

Section Serving.

Variable sock : socket.

#[local] Arguments Z.to_nat : simpl never.

(** In a turn that received a datagram, the only datagram the program
    may try to send is that one, and it does try when the turn ends
    normally. *)
Lemma turn_events_received (d : bytes * address) (rest : list event)
    (o : outcome unit) :
  turn_events sock (Recvfrom sock 16384 (Some (Returned d)) :: rest) o ->
  received rest = []
  /\ echoed rest `prefix_of` [d]
  /\ (o = Normal tt -> echoed rest = [d]).
Proof.
  intros H. inversion H; subst; simpl.
  all: split; [reflexivity|].
  all: split; [try apply prefix_nil; reflexivity|].
  all: intros Ho; try discriminate Ho; reflexivity.
Qed.

(** A turn that finds a datagram takes it from the inbox, receives it
    cut to 16384 octets, and tries to send that back at most once:
    once, when the turn ends normally. *)
Lemma loop_body_datagram (s : state) (payload : bytes) (sender : address)
    (inbox : list arrival) :
  w_inbox (st_world s) = Datagram payload sender :: inbox ->
  exists evs : list event,
    st_trace (snd (loop_body sock s)) = (st_trace s ++ evs)%list
    /\ w_inbox (st_world (snd (loop_body sock s))) = inbox
    /\ received evs = [cut (payload, sender)]
    /\ echoed evs `prefix_of` [cut (payload, sender)]
    /\ (fst (loop_body sock s) = Normal tt ->
        echoed evs = [cut (payload, sender)]).
Proof.
  intros Hin.
  rewrite (loop_body_received sock s payload sender inbox Hin).
  unfold cut. cbn [fst snd].
  set (data := take (Z.to_nat 16384) payload).
  destruct (after_receive_turn sock data sender
              (received_state sock data sender inbox s)
              (len_take_bufsize payload))
    as (rest & Htr & Hturn & Hsame).
  apply turn_events_received in Hturn as (Hrec & Hpre & Hech).
  exists (Recvfrom sock 16384 (Some (Returned (data, sender))) :: rest).
  split.
  { rewrite Htr. unfold received_state.
    cbn [st_trace with_heap log with_inbox].
    rewrite <- app_assoc. reflexivity. }
  split; [rewrite Hsame; reflexivity|].
  change (received (Recvfrom sock 16384 (Some (Returned (data, sender)))
                    :: rest))
    with ((data, sender) :: received rest).
  change (echoed (Recvfrom sock 16384 (Some (Returned (data, sender)))
                  :: rest))
    with (echoed rest).
  rewrite Hrec. auto.
Qed.

(** The loop tries to send back the datagrams at the head of the inbox,
    one after the other. *)
Lemma while_true_serves (fuel : nat) :
  forall s : state,
    exists evs : list event,
      st_trace (snd (while_true fuel (loop_body sock) s))
      = (st_trace s ++ evs)%list
      /\ echoed evs `prefix_of` cut <$> leading_datagrams (w_inbox (st_world s)).
Proof.
  induction fuel as [|fuel IH]; intros s.
  - exists []. simpl. rewrite app_nil_r. split; [reflexivity|apply prefix_nil].
  - simpl. unfold mbind.
    destruct (w_inbox (st_world s)) as [|[payload sender|e] inbox] eqn:Hin.
    + rewrite loop_body_blocked by assumption.
      eexists. split; [reflexivity|apply prefix_nil].
    + destruct (loop_body_datagram s payload sender inbox Hin)
        as (evs & Htr & Hin' & _ & Hpre & Hech).
      assert (Hcut : echoed evs
                     `prefix_of` cut (payload, sender)
                                 :: (cut <$> leading_datagrams inbox)).
      { destruct Hpre as [k Hk]. exists (k ++ (cut <$> leading_datagrams inbox))%list.
        rewrite app_assoc, <- Hk. reflexivity. }
      destruct (loop_body sock s) as [[[]|e| |] s1]; simpl in *.
      * destruct (IH s1) as (rest & Htr' & Hpre').
        exists (evs ++ rest)%list.
        rewrite Htr', Htr, app_assoc. split; [reflexivity|].
        unfold echoed in *. rewrite omap_app, (Hech eq_refl). simpl.
        apply prefix_cons. now rewrite Hin' in Hpre'.
      * exists evs. split; assumption.
      * exists evs. split; assumption.
      * exists evs. split; assumption.
    + rewrite (loop_body_recv_raised sock s e inbox) by assumption.
      eexists. split; [reflexivity|apply prefix_nil].
Qed.

Lemma next_mishap_none (ms : list (option exc)) :
  Forall (fun m => m = None) ms ->
  next_mishap ms = None /\ Forall (fun m => m = None) (tail ms).
Proof. intros [|m ms' Hm Hms]; simpl; auto. Qed.

Lemma next_fate_harmless (sends : list fate) :
  Forall harmless sends ->
  harmless (next_fate sends) /\ Forall harmless (tail sends).
Proof. intros [|f sends' Hf Hsends]; simpl; auto. Qed.

(** In a calm world what is left of a turn always ends normally, after
    one attempt to send, and leaves a calm world. *)
Lemma after_receive_calm (data : bytes) (addr : address) (s : state) :
  calm (st_world s) ->
  exists rest : list event,
    fst (after_receive sock data addr s) = Normal tt
    /\ st_trace (snd (after_receive sock data addr s))
       = (st_trace s ++ rest)%list
    /\ echoed rest = [(data, addr)]
    /\ w_inbox (st_world (snd (after_receive sock data addr s)))
       = w_inbox (st_world s)
    /\ calm (st_world (snd (after_receive sock data addr s))).
Proof.
  intros (Hprints & Hsleeps & Hsends).
  apply next_mishap_none in Hprints as [Hp1 Hprints].
  pose proof Hprints as Hprints1.
  apply next_mishap_none in Hprints as [Hp2 Hprints].
  pose proof Hprints as Hprints2.
  apply next_mishap_none in Hprints as [Hp3 Hprints].
  apply next_mishap_none in Hsleeps as [Hsl Hsleeps].
  apply next_fate_harmless in Hsends as [Hfate Hsends].
  unfold after_receive, mbind, print, sleep, try_except, sock_sendto.
  turn_step. rewrite Hp1. turn_step. rewrite Hp2. turn_step.
  rewrite Hsl. turn_step.
  destruct (next_fate (w_sends (st_world s))) as [|e]; turn_step.
  - eexists. split; [reflexivity|].
    split; [rewrite <- ?app_assoc; reflexivity|].
    split; [reflexivity|]. split; [reflexivity|].
    unfold calm. turn_step. auto.
  - simpl in Hfate. rewrite Hfate. turn_step. rewrite Hp3. turn_step.
    eexists. split; [reflexivity|].
    split; [rewrite <- ?app_assoc; reflexivity|].
    split; [reflexivity|]. split; [reflexivity|].
    unfold calm. turn_step. auto.
Qed.

(** When only datagrams arrive in a calm world, the loop serves them
    all and then waits in [recvfrom]. *)
Lemma while_true_serves_all (fuel : nat) :
  forall (s : state) (ds : list (bytes * address)),
    w_inbox (st_world s) = arrives <$> ds ->
    calm (st_world s) ->
    (length ds < fuel)%nat ->
    exists evs : list event,
      fst (while_true fuel (loop_body sock) s) = Blocked
      /\ st_trace (snd (while_true fuel (loop_body sock) s))
         = (st_trace s ++ evs)%list
      /\ echoed evs = cut <$> ds
      /\ last evs = Some (Recvfrom sock 16384 None).
Proof.
  induction fuel as [|fuel IH]; intros s ds Hin Hcalm Hlt; [lia|].
  simpl. unfold mbind.
  destruct ds as [|[payload sender] ds]; simpl in Hin.
  - rewrite loop_body_blocked by assumption.
    exists [Recvfrom sock 16384 None]. repeat split; reflexivity.
  - rewrite (loop_body_received sock s payload sender (arrives <$> ds) Hin).
    set (data := take (Z.to_nat 16384) payload).
    destruct (after_receive_calm data sender
                (received_state sock data sender (arrives <$> ds) s))
      as (rest & Hout & Htr & Hech & Hsame & Hcalm').
    { exact Hcalm. }
    destruct (after_receive sock data sender
                (received_state sock data sender (arrives <$> ds) s))
      as [o s1]; simpl in *; subst o.
    destruct (IH s1 ds) as (more & Hout' & Htr' & Hech' & Hlast);
      [rewrite Hsame; reflexivity|assumption|lia|].
    exists (Recvfrom sock 16384 (Some (Returned (data, sender)))
            :: rest ++ more)%list.
    split; [assumption|].
    split; [rewrite Htr', Htr, <- !app_assoc; reflexivity|].
    split.
    + unfold echoed in *. simpl. rewrite omap_app, Hech, Hech'. reflexivity.
    + rewrite last_cons, last_app, Hlast. reflexivity.
Qed.

End Serving.

(** ** What a whole run looks like *)

Section Runs.

(** In one turn the send attempts are the receipts, but for a turn
    that an exception ends between its receive and its send. *)
Lemma turn_events_balance (sock : socket) (evs : list event)
    (o : outcome unit) :
  turn_events sock evs o ->
  (echoed evs = received evs
   \/ exists d e, received evs = (echoed evs ++ [d])%list /\ o = Uncaught e)
  /\ (o = Normal tt -> echoed evs = received evs).
Proof.
  intros H; inversion H; subst.
  all: split;
    [first [left; reflexivity|right; eexists _, _; split; reflexivity]|].
  all: intros Ho; first [reflexivity|discriminate Ho].
Qed.

Lemma loop_events_balance (sock : socket) (evs : list event)
    (o : outcome unit) :
  loop_events sock evs o ->
  echoed evs = received evs
  \/ exists d e, received evs = (echoed evs ++ [d])%list /\ o = Uncaught e.
Proof.
  induction 1 as [|evs o Hturn|evs rest o Hturn Hloop IHe].
  - left; reflexivity.
  - now apply turn_events_balance in Hturn as [He _].
  - apply turn_events_balance in Hturn as [_ He].
    specialize (He eq_refl).
    unfold echoed, received in *. rewrite !omap_app, He.
    destruct IHe as [->|(d & e & -> & ->)]; [left; reflexivity|].
    right. exists d, e. rewrite app_assoc. split; reflexivity.
Qed.

Lemma loop_events_never_normal (sock : socket) (evs : list event)
    (o : outcome unit) :
  loop_events sock evs o -> o <> Normal tt.
Proof. induction 1; [discriminate|assumption|assumption]. Qed.

Lemma loop_events_fatal (sock : socket) (evs : list event)
    (o : outcome unit) (e : exc) :
  loop_events sock evs o -> o = Uncaught e ->
  exists ev : event, last evs = Some ev /\ fatal_call e ev.
Proof.
  induction 1 as [|evs o Hturn Hne|evs rest o Hturn Hloop IH]; intros Ho.
  - discriminate.
  - subst o. inversion Hturn; subst.
    all: eexists; split; [reflexivity|]; simpl; auto.
  - destruct (IH Ho) as (ev & Hlast & Hfatal).
    exists ev. split; [|assumption]. now rewrite last_app, Hlast.
Qed.

(** The three ways a run can go, by what [socket] and [bind] meet. *)
Lemma run_cases (fuel : nat) (w : world) :
  (exists e, w_socket w = Raised e
             /\ fst (run fuel w) = Uncaught e
             /\ trace fuel w = [Socket AF_INET SOCK_DGRAM (Raised e)])
  \/ (exists sock e, w_socket w = Returned sock /\ w_bind w = Raised e
                     /\ fst (run fuel w) = Uncaught e
                     /\ trace fuel w
                        = [Socket AF_INET SOCK_DGRAM (Returned sock);
                           Bind sock ("127.0.0.1", 3400) (Raised e)])
  \/ (exists sock evs, w_socket w = Returned sock /\ w_bind w = Returned tt
                       /\ trace fuel w = (startup sock ++ evs)%list
                       /\ loop_events sock evs (fst (run fuel w))).
Proof.
  destruct (w_socket w) as [sock|e] eqn:Hs.
  - destruct (w_bind w) as [[]|e] eqn:Hb.
    + right. right.
      destruct (trace_started fuel w sock tt Hs Hb) as (evs & Htr & Hloop).
      exists sock, evs. auto.
    + right. left. exists sock, e. unfold trace.
      rewrite (run_bind_raised fuel w sock e Hs Hb). auto.
  - left. exists e. unfold trace.
    rewrite (run_socket_raised fuel w e Hs). auto.
Qed.

Lemma cut_short (ds : list (bytes * address)) :
  Forall short ds -> cut <$> ds = ds.
Proof.
  induction 1 as [|[data addr] ds Hd Hds IH]; [reflexivity|].
  rewrite fmap_cons, IH. unfold cut, short, len in *. simpl in *.
  rewrite take_ge by lia. reflexivity.
Qed.

Lemma trace_serves (fuel : nat) (w : world) :
  echoed (trace fuel w) `prefix_of` cut <$> leading_datagrams (w_inbox w).
Proof.
  destruct (w_socket w) as [sock|e] eqn:Hs.
  - destruct (w_bind w) as [u|e] eqn:Hb.
    + unfold trace. rewrite (run_started fuel w sock u Hs Hb).
      destruct (while_true_serves sock fuel
                  (log (Bind sock ("127.0.0.1", 3400) (Returned tt))
                     (log (Socket AF_INET SOCK_DGRAM (Returned sock)) (boot w))))
        as (evs & -> & Hpre).
      exact Hpre.
    + unfold trace. rewrite (run_bind_raised fuel w sock e Hs Hb).
      apply prefix_nil.
  - unfold trace. rewrite (run_socket_raised fuel w e Hs). apply prefix_nil.
Qed.

End Runs.

(** X4.  The program never comes to an end of its own: no run ends
    normally. *)
Theorem run_never_returns (fuel : nat) (w : world) :
  fst (run fuel w) <> Normal tt.
Proof.
  destruct (run_cases fuel w)
    as [(e & _ & -> & _)|[(sock & e & _ & _ & -> & _)|(sock & evs & _ & _ & _ & Hloop)]];
    try discriminate.
  eapply loop_events_never_normal, Hloop.
Qed.

(** X5.  When a run ends by an exception, the call that raised it is
    the last call made, and it is [socket], [bind], a [recvfrom], a
    [print], a [sleep], or a [sendto] whose exception is not an
    instance of [Exception]. *)
Theorem run_dies_at_fatal_call (fuel : nat) (w : world) (e : exc) :
  fst (run fuel w) = Uncaught e ->
  exists ev : event, last (trace fuel w) = Some ev /\ fatal_call e ev.
Proof.
  intros Ho.
  destruct (run_cases fuel w)
    as [(e' & _ & Ho' & ->)|[(sock & e' & _ & _ & Ho' & ->)|(sock & evs & _ & _ & -> & Hloop)]].
  - eexists. split; [reflexivity|]. simpl. congruence.
  - eexists. split; [reflexivity|]. simpl. congruence.
  - destruct (loop_events_fatal sock evs _ e Hloop Ho) as (ev & Hlast & Hfatal).
    exists ev. split; [|assumption]. now rewrite last_app, Hlast.
Qed.

(** X6.  The datagrams the program tries to send are the datagrams it
    received, each once and in the order received, bytes and address
    alike; only the last datagram received has no send attempt when an
    exception ends the run between its receive and its send. *)
Theorem one_echo_per_receipt (fuel : nat) (w : world) :
  echoed (trace fuel w) = received (trace fuel w)
  \/ exists (d : bytes * address) (e : exc),
       received (trace fuel w) = (echoed (trace fuel w) ++ [d])%list
       /\ fst (run fuel w) = Uncaught e.
Proof.
  destruct (run_cases fuel w)
    as [(e & _ & _ & ->)|[(sock & e & _ & _ & _ & ->)|(sock & evs & _ & _ & -> & Hloop)]];
    try (left; reflexivity).
  apply loop_events_balance in Hloop as He.
  unfold echoed, received in *. rewrite !omap_app. exact He.
Qed.

(** X7.  Datagrams are served in the order they arrive, none skipped
    and none twice: what the program tries to send is an initial part
    of the arrivals before the first receive error, each cut to its
    first 16384 octets. *)
Theorem echoes_follow_arrivals (fuel : nat) (w : world) :
  echoed (trace fuel w) `prefix_of` cut <$> leading_datagrams (w_inbox w).
Proof.
  destruct (run_cases fuel w)
    as [(e & _ & _ & ->)|[(sock & e & _ & _ & _ & ->)|(sock & evs & Hs & Hb & _ & _)]];
    try apply prefix_nil.
  unfold trace. rewrite (run_started fuel w sock tt Hs Hb).
  destruct (while_true_serves sock fuel
              (log (Bind sock ("127.0.0.1", 3400) (Returned tt))
                 (log (Socket AF_INET SOCK_DGRAM (Returned sock)) (boot w))))
    as (served & -> & Hpre).
  exact Hpre.
Qed.

(** X8.  When no arriving datagram is longer than 16384 octets, what
    the program tries to send back is, byte for byte and address for
    address, an initial part of what arrived. *)
Theorem short_datagrams_echoed_whole (fuel : nat) (w : world) :
  Forall short (leading_datagrams (w_inbox w)) ->
  echoed (trace fuel w) `prefix_of` leading_datagrams (w_inbox w).
Proof.
  intros Hshort. rewrite <- (cut_short _ Hshort). apply trace_serves.
Qed.

(** X9.  When the socket is created and bound, only datagrams arrive,
    no [print] and no [sleep] raises, and every send either goes
    through or fails with an instance of [Exception], the program,
    given more turns than there are datagrams, tries to echo every one
    of them and ends waiting in a [recvfrom] that never returns. *)
Theorem serves_all_then_waits (fuel : nat) (w : world) (sock : socket)
    (ds : list (bytes * address)) :
  w_socket w = Returned sock ->
  w_bind w = Returned tt ->
  w_inbox w = arrives <$> ds ->
  calm w ->
  (length ds < fuel)%nat ->
  fst (run fuel w) = Blocked
  /\ echoed (trace fuel w) = cut <$> ds
  /\ last (trace fuel w) = Some (Recvfrom sock 16384 None).
Proof.
  intros Hs Hb Hin Hcalm Hlt.
  unfold trace. rewrite (run_started fuel w sock tt Hs Hb).
  destruct (while_true_serves_all sock fuel
              (log (Bind sock ("127.0.0.1", 3400) (Returned tt))
                 (log (Socket AF_INET SOCK_DGRAM (Returned sock)) (boot w)))
              ds Hin Hcalm Hlt)
    as (evs & Hout & Htr & Hech & Hlast).
  split; [exact Hout|].
  rewrite Htr.
  split; [exact Hech|].
  now rewrite last_app, Hlast.
Qed.

(** X10.  After a [sendto] that goes through nothing is printed: the
    next call is the [recvfrom] of the next turn. *)
Theorem delivered_send_prints_nothing (fuel : nat) (w : world) (i : nat)
    (sock : socket) (data : bytes) (addr : address) (n : Z) :
  (length (w_inbox w) < fuel)%nat ->
  trace fuel w !! i = Some (Sendto sock data addr (Returned n)) ->
  exists r, trace fuel w !! (i + 1)%nat = Some (Recvfrom sock 16384 r).
Proof.
  intros Hfuel Hev. in_turn Hev.
  destruct Hend as [[_ Hloop]|[Hne _]]; [|congruence].
  apply loop_events_head in Hloop as (r & rest & ->);
    [|now apply run_enough_fuel].
  exists r.
  replace (length pre + 4 + 1)%nat with (length pre + 5)%nat by lia.
  apply (after_block _ _ _ _ _ Htr).
Qed.

(** ** The further theorems at work on sample worlds *)

Lemma bytes_dump_inj_witness :
  let s1 := boot (listening [] []) in
  let s2 := boot (listening [Datagram hi client] [SendError refused]) in
  returned_list (bytes_dump hi s1)
  = returned_list (bytes_dump ["h"%byte; "i"%byte] s2)
  /\ hi = ["h"%byte; "i"%byte].
Proof.
  intros s1 s2.
  assert (H : returned_list (bytes_dump hi s1)
              = returned_list (bytes_dump ["h"%byte; "i"%byte] s2))
    by reflexivity.
  split; [assumption|].
  exact (bytes_dump_inj hi ["h"%byte; "i"%byte] s1 s2 H).
Defined.

Lemma run_dies_at_fatal_call_witness :
  let w := listening_signals [Datagram hi client; Datagram [] client]
             [None; Some interrupt] in
  fst (run 5 w) = Uncaught interrupt
  /\ exists ev : event, last (trace 5 w) = Some ev /\ fatal_call interrupt ev.
Proof.
  intros w.
  assert (H : fst (run 5 w) = Uncaught interrupt) by reflexivity.
  split; [assumption|].
  exact (run_dies_at_fatal_call 5 w interrupt H).
Defined.

Lemma short_datagrams_echoed_whole_witness :
  let w := listening [Datagram hi client; Datagram [] client;
                      RecvError bad_descriptor] [] in
  Forall short (leading_datagrams (w_inbox w))
  /\ echoed (trace 5 w) `prefix_of` [(hi, client); ([], client)].
Proof.
  intros w.
  assert (H : Forall short (leading_datagrams (w_inbox w))).
  { repeat constructor; unfold short, len; simpl; lia. }
  split; [assumption|].
  exact (short_datagrams_echoed_whole 5 w H).
Defined.

Lemma serves_all_then_waits_witness :
  let ds := [(hi, client); ([], client)] in
  let w := listening (arrives <$> ds) [SendError refused] in
  w_socket w = Returned 3%nat
  /\ w_bind w = Returned tt
  /\ w_inbox w = arrives <$> ds
  /\ calm w
  /\ (length ds < 3)%nat
  /\ fst (run 3 w) = Blocked
  /\ echoed (trace 3 w) = cut <$> ds
  /\ last (trace 3 w) = Some (Recvfrom 3%nat 16384 None).
Proof.
  intros ds w.
  assert (Hcalm : calm w).
  { repeat split; repeat constructor. }
  assert (Hlt : (length ds < 3)%nat) by (simpl; lia).
  split; [reflexivity|]. split; [reflexivity|]. split; [reflexivity|].
  split; [assumption|]. split; [assumption|].
  exact (serves_all_then_waits 3 w 3%nat ds eq_refl eq_refl eq_refl
           Hcalm Hlt).
Defined.

Lemma delivered_send_prints_nothing_witness :
  let w := listening [Datagram hi client] [] in
  (length (w_inbox w) < 2)%nat
  /\ trace 2 w !! 6%nat = Some (Sendto 3%nat hi client (Returned 2))
  /\ exists r, trace 2 w !! 7%nat = Some (Recvfrom 3%nat 16384 r).
Proof.
  intros w.
  assert (Hlt : (length (w_inbox w) < 2)%nat) by (simpl; lia).
  assert (Hev : trace 2 w !! 6%nat
                = Some (Sendto 3%nat hi client (Returned 2)))
    by reflexivity.
  split; [assumption|]. split; [assumption|].
  exact (delivered_send_prints_nothing 2 w 6 3%nat hi client 2 Hlt Hev).
Defined.
